(** * buildifier: the driver and the core's BUILD-file generator

    A shallow embedding of [buildifier/buildifier.go] (the command-line
    driver) and [core/builder.go] ([NewBuildFile]), with the parts of the Go
    standard library they rely on ([html/template], [sort.Strings],
    [strings.Split], [strings.Join]) modelled next to them.

    The parser, rewriter and printer of package [build] are called by both
    files and defined elsewhere in the package; they appear here as the
    operations of the class [BuildPackage]. *)

From Stdlib Require Import Strings.String Strings.Ascii Strings.Byte.
From Stdlib Require Import Lists.List ZArith Lia Sorting.Sorted.
From stdpp Require Import base tactics option list strings sorting pretty.

Set Default Proof Using "Type".
Set Warnings "-register-all".
Local Open Scope string_scope.
Local Open Scope list_scope.

(** ** Go values shared by both packages *)

(** A byte slice [[]byte]. *)
Definition bytes := list byte.

#[global] Instance byte_eq_dec : EqDecision byte := Byte.byte_eq_dec.

(** [[]byte(s)], as in [b.Bytes()] against [b.String()]. *)
Definition bytes_of (s : string) : bytes := list_byte_of_string s.

(** A Go [error] value is represented by its message; [nil] is [None]. *)
Definition error := string.

(** Results of library calls that return [(value, error)]. *)
Inductive result (A : Type) : Type :=
| Ok (a : A)
| Err (e : error).
Arguments Ok {A} a.
Arguments Err {A} e.

#[global] Instance result_bind : MBind result := fun A B k r =>
  match r with
  | Ok a => k a
  | Err e => Err e
  end.

#[global] Instance result_ret : MRet result := fun A a => Ok a.

(** ** A model of the part of [html/template] that [NewBuildFile] uses

    The model covers text without markup, the actions [{{.Field}}],
    [{{$var}}], [{{range $x := pipeline}}], [{{range $i, $x := pipeline}}]
    and [{{end}}], and data made of strings, integers, slices and
    string-keyed maps.  Text without the character [<] never leaves the
    escaper's element-content state, so every action is printed through
    the HTML escaper.  Every construct outside this fragment is reported as
    an error: a run of the model that succeeds is a run on which the
    library succeeds with the same output. *)
Module Template.

(** *** Lexing: text and actions *)

Inductive item : Type :=
| IText (s : string)
| IAction (s : string).

Definition pushText (acc : string) (items : list item) : list item :=
  match acc with
  | "" => items
  | _ => IText (String.rev acc) :: items
  end.

(** One pass over the template text.  [acc] holds, reversed, the
    characters of the text or action being read; [items], reversed, the
    items already closed. *)
Fixpoint lexFrom (inAction : bool) (acc : string) (items : list item)
    (s : string) : result (list item) :=
  match s with
  | "" =>
      if inAction then Err "unclosed action"
      else Ok (rev (pushText acc items))
  | String c1 "" =>
      if inAction then Err "unclosed action"
      else Ok (rev (pushText (String c1 acc) items))
  | String c1 (String c2 s2 as s1) =>
      if inAction then
        if (bool_decide (c1 = "}"%char) && bool_decide (c2 = "}"%char))%bool
        then lexFrom false "" (IAction (String.rev acc) :: items) s2
        else lexFrom true (String c1 acc) items s1
      else
        if (bool_decide (c1 = "{"%char) && bool_decide (c2 = "{"%char))%bool
        then lexFrom true "" (pushText acc items) s2
        else lexFrom false (String c1 acc) items s1
  end.

Definition lex : string -> result (list item) := lexFrom false "" [].

(** *** Parsing actions *)

Inductive pipe : Type :=
| PDot
| PField (name : string)
| PVar (name : string).

Inductive action : Type :=
| APipe (p : pipe)
| ARange (vars : list string) (p : pipe)
| AEnd.

Fixpoint hasChar (c : ascii) (s : string) : bool :=
  match s with
  | "" => false
  | String d s' => bool_decide (c = d) || hasChar c s'
  end.

(** An operand: [.], [.Name] or [$name]. *)
Definition parseOperand (w : string) : result pipe :=
  match w with
  | String "." "" => Ok PDot
  | String "." name =>
      if hasChar "." name then Err ("unmodelled field chain: " +:+ w)
      else Ok (PField name)
  | String "$" name => Ok (PVar w)
  | _ => Err ("unmodelled operand: " +:+ w)
  end.

Definition isVariable (w : string) : bool :=
  match w with
  | String "$" _ => negb (hasChar "," w)
  | _ => false
  end.

(** ["$index,"] is the variable ["$index"] followed by a comma. *)
Definition stripComma (w : string) : option string :=
  match String.rev w with
  | String "," r => Some (String.rev r)
  | _ => None
  end.

Definition parseAction (text : string) : result action :=
  match String.words text with
  | ["end"] => Ok AEnd
  | ["range"; v; ":="; operand] =>
      if isVariable v then (p ← parseOperand operand; Ok (ARange [v] p))
      else Err ("unmodelled range: " +:+ text)
  | ["range"; vc; v2; ":="; operand] =>
      match stripComma vc with
      | Some v1 =>
          if (isVariable v1 && isVariable v2)%bool
          then (p ← parseOperand operand; Ok (ARange [v1; v2] p))
          else Err ("unmodelled range: " +:+ text)
      | None => Err ("unmodelled range: " +:+ text)
      end
  | [w] => (p ← parseOperand w; Ok (APipe p))
  | _ => Err ("unmodelled action: " +:+ text)
  end.

(** *** Building the tree *)

Inductive node : Type :=
| NText (s : string)
| NAction (p : pipe)
| NRange (vars : list string) (p : pipe) (body : list node).

(** An open [range]: its header, the nodes read before it in the enclosing
    list (reversed) and the variables in scope outside it. *)
Record frame : Type := Frame {
  fvars : list string;
  fpipe : pipe;
  fouter : list node;
  fscope : list string
}.

Definition checkPipe (scope : list string) (p : pipe) : result pipe :=
  match p with
  | PVar v =>
      if bool_decide (v ∈ scope) then Ok p
      else Err ("undefined variable " +:+ v)
  | _ => Ok p
  end.

Fixpoint build (items : list item) (cur : list node) (scope : list string)
    (stack : list frame) : result (list node) :=
  match items with
  | [] =>
      match stack with
      | [] => Ok (rev cur)
      | _ :: _ => Err "unexpected EOF"
      end
  | IText s :: rest =>
      if hasChar "<" s then Err "unmodelled: markup in the template text"
      else build rest (NText s :: cur) scope stack
  | IAction a :: rest =>
      match parseAction a with
      | Err e => Err e
      | Ok (APipe p) =>
          match checkPipe scope p with
          | Err e => Err e
          | Ok p => build rest (NAction p :: cur) scope stack
          end
      | Ok (ARange vs p) =>
          match checkPipe scope p with
          | Err e => Err e
          | Ok p => build rest [] (vs ++ scope) (Frame vs p cur scope :: stack)
          end
      | Ok AEnd =>
          match stack with
          | [] => Err "unexpected {{end}}"
          | fr :: stack' =>
              build rest (NRange (fvars fr) (fpipe fr) (rev cur) :: fouter fr)
                (fscope fr) stack'
          end
      end
  end.

(** [template.New(name).Funcs(funcMap).Parse(text)]; the name and the
    empty function map play no part. *)
Definition Parse (text : string) : result (list node) :=
  (items ← lex text; build items [] ["$"] []).

(** *** Data and execution *)

Inductive value : Type :=
| VString (s : string)
| VInt (n : Z)
| VSlice (xs : list value)
| VMap (kvs : list (string * value)).

(** [htmlReplacementTable]. *)
Definition escapeChar (c : ascii) : string :=
  match c with
  | "000"%char => String "239" (String "191" (String "189" ""))
  | "034"%char => "&#34;"
  | "&"%char => "&amp;"
  | "'"%char => "&#39;"
  | "+"%char => "&#43;"
  | "<"%char => "&lt;"
  | ">"%char => "&gt;"
  | _ => String c ""
  end.

Fixpoint htmlEscape (s : string) : string :=
  match s with
  | "" => ""
  | String c s' => escapeChar c +:+ htmlEscape s'
  end.

Definition printValue (v : value) : result string :=
  match v with
  | VString s => Ok (htmlEscape s)
  | VInt n => Ok (htmlEscape (pretty n))
  | VSlice _ => Err "unmodelled: printing a slice"
  | VMap _ => Err "unmodelled: printing a map"
  end.

Definition env := list (string * value).

Fixpoint lookupKey (k : string) (kvs : list (string * value)) : option value :=
  match kvs with
  | [] => None
  | (k', v) :: rest => if bool_decide (k = k') then Some v else lookupKey k rest
  end.

Definition evalPipe (p : pipe) (dot : value) (vars : env) : result value :=
  match p with
  | PDot => Ok dot
  | PVar v =>
      match lookupKey v vars with
      | Some x => Ok x
      | None => Err ("undefined variable: " +:+ v)
      end
  | PField name =>
      match dot with
      | VMap kvs =>
          match lookupKey name kvs with
          | Some x => Ok x
          | None => Err ("unmodelled: map has no entry for key " +:+ name)
          end
      | _ => Err ("can't evaluate field " +:+ name)
      end
  end.

(** The variables a [range] header sets for one element. *)
Definition bindRange (vs : list string) (index elem : value) (vars : env) : env :=
  match vs with
  | [x] => (x, elem) :: vars
  | [i; x] => (x, elem) :: (i, index) :: vars
  | _ => vars
  end.

(** Runs [body] once per element and concatenates the output. *)
Fixpoint forEach (body : value -> value -> result string)
    (elems : list (value * value)) : result string :=
  match elems with
  | [] => Ok ""
  | (i, x) :: rest =>
      (s1 ← body i x; s2 ← forEach body rest; Ok (s1 +:+ s2))
  end.

(** Map keys are visited in sorted order. *)
Definition sortedEntries (kvs : list (string * value)) : list (string * value) :=
  merge_sort (fun a b => String.le (fst a) (fst b)) kvs.

Definition indexed (xs : list value) : list (value * value) :=
  imap (fun i x => (VInt (Z.of_nat i), x)) xs.

Fixpoint execNode (n : node) (dot : value) (vars : env) {struct n}
    : result string :=
  match n with
  | NText s => Ok s
  | NAction p => (v ← evalPipe p dot vars; printValue v)
  | NRange vs p body =>
      let execBody :=
        fix go (ns : list node) (dot : value) (vars : env) : result string :=
          match ns with
          | [] => Ok ""
          | n' :: rest =>
              (s1 ← execNode n' dot vars;
               s2 ← go rest dot vars;
               Ok (s1 +:+ s2))
          end in
      let iter := fun i x => execBody body x (bindRange vs i x vars) in
      match evalPipe p dot vars with
      | Err e => Err e
      | Ok (VSlice xs) => forEach iter (indexed xs)
      | Ok (VMap kvs) =>
          forEach iter (map (fun kv => (VString (fst kv), snd kv)) (sortedEntries kvs))
      | Ok _ => Err "range can't iterate over value"
      end
  end.

Fixpoint execList (ns : list node) (dot : value) (vars : env) : result string :=
  match ns with
  | [] => Ok ""
  | n :: rest =>
      (s1 ← execNode n dot vars;
       s2 ← execList rest dot vars;
       Ok (s1 +:+ s2))
  end.

(** [tmpl.Execute(&b, data)], returning what was written to [b]. *)
Definition Execute (tmpl : list node) (data : value) : result string :=
  execList tmpl data [("$", data)].

End Template.

(** ** Package [build] (directory [core]) *)
Module Build.

(** [build.File]: the field the driver assigns, and the rest of the
    syntax tree. *)
Record File (Tree : Type) : Type := mkFile {
  Path : string;
  tree : Tree
}.
Arguments mkFile {Tree} Path tree.
Arguments Path {Tree} _.
Arguments tree {Tree} _.

(** [build.RewriteInfo]: the log the driver reads, and the counters
    behind its [String] method. *)
Record RewriteInfo (Stats : Type) : Type := mkInfo {
  Log : list string;
  stats : Stats
}.
Arguments mkInfo {Stats} Log stats.
Arguments Log {Stats} _.
Arguments stats {Stats} _.

(** The operations of the package that [NewBuildFile] and the driver call
    and that are defined in other files of the package.  [Parse] returns
    the Go pair of a file pointer and an error; [Rewrite] updates the file
    and the info it is handed, under the two package variables
    [DisableRewrites] and [AllowSort] that the driver sets from its flags;
    [InfoString] is the [String] method of [RewriteInfo]. *)
Class BuildPackage : Type := {
  Tree : Type;
  Stats : Type;
  zeroStats : Stats;
  Parse : string -> bytes -> File Tree * option error;
  Format : File Tree -> bytes;
  Rewrite : list string -> list string ->
            File Tree -> RewriteInfo Stats -> File Tree * RewriteInfo Stats;
  InfoString : RewriteInfo Stats -> string
}.

(** The constant [templateText] of [NewBuildFile], line by line; [nl] is
    the line feed and [dq] the double quote. *)
Definition nl : string := String "010" "".
Definition dq : string := String "034" "".

Definition templateText : string :=
  nl +:+
  "{{.RuleName}}(" +:+ nl +:+
  "    {{range $index, $element := .Attrs}}" +:+ nl +:+
  "        " +:+ dq +:+ "{{ $index }}" +:+ dq +:+ " : [" +:+ nl +:+
  "           {{ range $name := $element }}" +:+ nl +:+
  "                " +:+ dq +:+ "{{$name}}" +:+ dq +:+ "," +:+ nl +:+
  "           {{end}}" +:+ nl +:+
  "        ]," +:+ nl +:+
  "    {{end}}" +:+ nl +:+
  ")" +:+ nl.

(** The value [doc]. *)
Definition doc : Template.value :=
  Template.VMap
    [("RuleName", Template.VString "go_library");
     ("Attrs", Template.VMap
        [("srcs", Template.VSlice [Template.VString "src.go"])])].

(** What a call leaves behind: the process was ended by [log.Fatalf], or
    the call returned after logging [logged]. *)
Inductive outcome (A : Type) : Type :=
| Fatal (msg : string)
| Returns (logged : list string) (a : A).
Arguments Fatal {A} msg.
Arguments Returns {A} logged a.

Definition NewBuildFile `{BuildPackage} : outcome (File Tree * option error) :=
  match Template.Parse templateText with
  | Err err => Fatal ("parsing: " +:+ err)
  | Ok tmpl =>
      match Template.Execute tmpl doc with
      | Err err => Fatal ("execution: " +:+ err)
      | Ok b => Returns [b] (Parse "generated" (bytes_of b))
      end
  end.

(** The document the template yields for [doc]. *)
Definition generated : string :=
  nl +:+
  "go_library(" +:+ nl +:+
  "    " +:+ nl +:+
  "        " +:+ dq +:+ "srcs" +:+ dq +:+ " : [" +:+ nl +:+
  "           " +:+ nl +:+
  "                " +:+ dq +:+ "src.go" +:+ dq +:+ "," +:+ nl +:+
  "           " +:+ nl +:+
  "        ]," +:+ nl +:+
  "    " +:+ nl +:+
  ")" +:+ nl.

End Build.


(** ** The Go library functions the driver calls *)
Module Go.

(** [strings.Split(s, sep)] for a one-character separator: the pieces
    between the separators, the empty string giving one empty piece. *)
Fixpoint splitFrom (sep : ascii) (cur : string) (s : string) : list string :=
  match s with
  | "" => [String.rev cur]
  | String c s' =>
      if bool_decide (c = sep) then String.rev cur :: splitFrom sep "" s'
      else splitFrom sep (String c cur) s'
  end.

Definition Split (s : string) (sep : ascii) : list string := splitFrom sep "" s.

(** [strings.Join(elems, sep)]. *)
Fixpoint Join (elems : list string) (sep : string) : string :=
  match elems with
  | [] => ""
  | [x] => x
  | x :: rest => x +:+ sep +:+ Join rest sep
  end.

(** [sort.Strings]: increasing byte-wise order.  Equal strings are
    indistinguishable, so the result does not depend on the algorithm. *)
Definition SortStrings (l : list string) : list string := merge_sort String.le l.

(** [bytes.Equal]. *)
Definition Equal (a b : bytes) : bool := bool_decide (a = b).

End Go.

(** ** Package [main] (directory [buildifier]) *)
Module Buildifier.
Import Build.

(** The command-line flags after [flag.Parse]. *)
Record Flags : Type := mkFlags {
  showlog : bool;
  vflag : bool;
  dflag : bool;
  mode : string;
  path : string;
  allowsort : string;
  buildifier_disable : string
}.

Definition setMode (fl : Flags) (m : string) : Flags :=
  mkFlags (showlog fl) (vflag fl) (dflag fl) m (path fl)
          (allowsort fl) (buildifier_disable fl).

(** [stringList]: the flag's value split at commas. *)
Definition stringList (value : string) : list string := Go.Split value ",".

(** What the operating system answers: the bytes on standard input, the
    content of each file, whether a file can be written, the name of the
    n-th temporary file and whether it takes the bytes written to it. *)
Record OS : Type := mkOS {
  ReadStdin : result bytes;
  ReadFile : string -> result bytes;
  WriteFile : string -> bytes -> option error;
  TempFile : nat -> result string;
  TempWrite : string -> bytes -> option error
}.

(** How a function of the driver ends. *)
Inductive ending (A : Type) : Type :=
| Done (a : A)
| Panicked (msg : string).
Arguments Done {A} a.
Arguments Panicked {A} msg.

(** [exitCode] is declared with the value 0; no statement of the package
    assigns to it. *)
Definition exitCode : Z := 0.

(** The loop of [processFile] that drops repeated entries of the sorted
    log: [last] is the entry kept most recently, [uniq] the entries kept. *)
Fixpoint uniqFrom (last : string) (uniq : list string) (log : list string)
    : list string :=
  match log with
  | [] => uniq
  | s :: rest =>
      if bool_decide (s ≠ last) then uniqFrom s (uniq ++ [s]) rest
      else uniqFrom last uniq rest
  end.

(** The entries check mode prints: [sort.Strings(info.Log)], then the loop
    with [last] and [uniq] at their zero values. *)
Definition uniqLog (log : list string) : list string :=
  uniqFrom "" [] (Go.SortStrings log).

Section driver.
Context `{BuildPackage}.

(** What a run does that can be seen from outside, and its calls into
    package [build]. *)
Inductive event : Type :=
| EParse (filename : string) (data : bytes)
| EFormat (f : File Tree)
| ERewrite (f : File Tree) (info : RewriteInfo Stats)
| EPrintf (s : string)
| EStdoutWrite (b : bytes)
| EStderr (s : string)
| EWriteFile (filename : string) (data : bytes)
| ECreateTemp (name : string)
| EWriteTemp (name : string) (data : bytes)
| EDiffShow (infile outfile : string)
| EDiffRun
| ERemove (file : string).

(** The package variables of [main] and [build] and the events so far,
    oldest first. *)
Record State : Type := mkState {
  flags : Flags;
  DisableRewrites : list string;
  AllowSort : list string;
  toRemove : list string;
  trace : list event
}.

Definition M (A : Type) : Type := State -> A * State.

#[local] Instance M_bind : MBind M := fun A B k m st =>
  let '(a, st') := m st in k a st'.
#[local] Instance M_ret : MRet M := fun A a st => (a, st).

(** [st] with the events [tr] added to its trace. *)
Definition logged (st : State) (tr : list event) : State :=
  mkState (flags st) (DisableRewrites st) (AllowSort st) (toRemove st)
          (trace st ++ tr).

Definition emit (e : event) : M unit := fun st => (tt, logged st [e]).

Definition getFlags : M Flags := fun st => (flags st, st).

Definition getRewriteConfig : M (list string * list string) := fun st =>
  ((DisableRewrites st, AllowSort st), st).

Definition putFlags (fl : Flags) : M unit := fun st =>
  (tt, mkState fl (DisableRewrites st) (AllowSort st) (toRemove st) (trace st)).

Definition putRewriteConfig (disable allow : list string) : M unit := fun st =>
  (tt, mkState (flags st) disable allow (toRemove st) (trace st)).

Definition getToRemove : M (list string) := fun st => (toRemove st, st).

Definition appendToRemove (name : string) : M unit := fun st =>
  (tt, mkState (flags st) (DisableRewrites st) (AllowSort st)
         (toRemove st ++ [name]) (trace st)).

(** [writeTemp]: the name is recorded in [toRemove] as soon as the file
    exists, before the write. *)
Definition writeTemp (os : OS) (data : bytes) : M (result string) :=
  created ← getToRemove;
  match TempFile os (length created) with
  | Err err => mret (Err ("creating temporary file: " +:+ err))
  | Ok name =>
      _ ← emit (ECreateTemp name);
      _ ← appendToRemove name;
      _ ← emit (EWriteTemp name data);
      match TempWrite os name data with
      | Some err => mret (Err ("writing temporary file: " +:+ err))
      | None => mret (Ok name)
      end
  end.

(** The line check mode prints for a file that needs formatting. *)
Definition checkReport (fl : Flags) (filename : string) (data beforeRewrite : bytes)
    (info : RewriteInfo Stats) : string :=
  let reformat := if negb (Go.Equal data beforeRewrite) then " reformat" else "" in
  let '(info, log) :=
    if (bool_decide (0 < length (Log info)) && showlog fl)%bool then
      (mkInfo (Go.SortStrings (Log info)) (stats info),
       " " +:+ Go.Join (uniqLog (Log info)) " ")
    else (info, "") in
  filename +:+ " #" +:+ reformat +:+ " " +:+ InfoString info +:+ log +:+ nl.

(** The cases of the switch on the mode in [processFile]. *)

(** check mode: print names of files that need formatting. *)
Definition checkMode (fl : Flags) (filename : string)
    (data beforeRewrite ndata : bytes) (info : RewriteInfo Stats)
    : M (ending (option error)) :=
  if negb (Go.Equal data ndata) then
    _ ← emit (EPrintf (checkReport fl filename data beforeRewrite info));
    mret (Done None)
  else mret (Done None).

(** diff mode: run diff on old and new. *)
Definition diffMode (os : OS) (filename : string) (data ndata : bytes)
    : M (ending (option error)) :=
  if Go.Equal data ndata then mret (Done None)
  else
    out ← writeTemp os ndata;
    match out with
    | Err err => mret (Done (Some err))
    | Ok outfile =>
        if bool_decide (filename = "") then
          inp ← writeTemp os data;
          match inp with
          | Err err => mret (Done (Some err))
          | Ok infile =>
              _ ← emit (EDiffShow infile outfile);
              mret (Done None)
          end
        else
          _ ← emit (EDiffShow filename outfile);
          mret (Done None)
    end.

(** pipe mode: reading from stdin, writing to stdout. *)
Definition pipeMode (ndata : bytes) : M (ending (option error)) :=
  _ ← emit (EStdoutWrite ndata);
  mret (Done None).

(** fix mode: update files in place as needed. *)
Definition fixMode (os : OS) (fl : Flags) (filename : string)
    (data ndata : bytes) : M (ending (option error)) :=
  if Go.Equal data ndata then mret (Done None)
  else
    _ ← emit (EWriteFile filename ndata);
    match WriteFile os filename ndata with
    | Some err => mret (Done (Some err))
    | None =>
        if vflag fl then
          _ ← emit (EStderr ("fixed " +:+ filename +:+ nl));
          mret (Done None)
        else mret (Done None)
    end.

Definition modeSwitch (os : OS) (fl : Flags) (filename : string)
    (data beforeRewrite ndata : bytes) (info : RewriteInfo Stats)
    : M (ending (option error)) :=
  if bool_decide (mode fl = "check") then
    checkMode fl filename data beforeRewrite ndata info
  else if bool_decide (mode fl = "diff") then diffMode os filename data ndata
  else if bool_decide (mode fl = "pipe") then pipeMode ndata
  else if bool_decide (mode fl = "fix") then fixMode os fl filename data ndata
  else mret (Panicked ("mode not supported: " +:+ mode fl)).

Definition processFile (os : OS) (filename : string) : M (ending (option error)) :=
  match (if bool_decide (filename = "stdin") then ReadStdin os
         else ReadFile os filename) with
  | Err err => mret (Done (Some err))
  | Ok data =>
      _ ← emit (EParse filename data);
      match Parse filename data with
      | (_, Some _) => mret (Done None)
      | (f, None) =>
          fl ← getFlags;
          let f := if bool_decide (path fl ≠ "") then mkFile (path fl) (tree f)
                   else f in
          _ ← emit (EFormat f);
          let beforeRewrite := Format f in
          let info := mkInfo [] zeroStats in
          cfg ← getRewriteConfig;
          _ ← emit (ERewrite f info);
          let '(f, info) := Rewrite cfg.1 cfg.2 f info in
          _ ← emit (EFormat f);
          let ndata := Format f in
          modeSwitch os fl filename data beforeRewrite ndata info
      end
  end.

(** The workers of [processFiles], run one file after the other in the
    order of the argument list: the results sent on [ch], oldest
    first.  A panic in a worker ends the process. *)
Fixpoint workers (os : OS) (files : list string)
    : M (ending (list (string * error))) :=
  match files with
  | [] => mret (Done [])
  | filename :: rest =>
      r ← processFile os filename;
      match r with
      | Panicked msg => mret (Panicked msg)
      | Done err =>
          rs ← workers os rest;
          match rs with
          | Panicked msg => mret (Panicked msg)
          | Done ch =>
              mret (Done (match err with
                          | Some e => (filename, e) :: ch
                          | None => ch
                          end))
          end
      end
  end.

Fixpoint reportErrors (ch : list (string * error)) : M unit :=
  match ch with
  | [] => mret tt
  | (_, err) :: rest =>
      _ ← emit (EStderr ("buildifier: " +:+ err +:+ nl));
      reportErrors rest
  end.

Definition processFiles (os : OS) (files : list string) : M (ending unit) :=
  match files with
  | [] => mret (Done tt)
  | _ :: _ =>
      r ← workers os files;
      match r with
      | Panicked msg => mret (Panicked msg)
      | Done ch => _ ← reportErrors ch; mret (Done tt)
      end
  end.

Fixpoint removeAll (files : list string) : M unit :=
  match files with
  | [] => mret tt
  | file :: rest => _ ← emit (ERemove file); removeAll rest
  end.

(** [main] after [flag.Parse]: [Done code] stands for [os.Exit(code)]. *)
Definition main (os : OS) (args : list string) : M (ending Z) :=
  fl ← getFlags;
  _ ← putRewriteConfig (stringList (buildifier_disable fl))
                       (stringList (allowsort fl));
  if (dflag fl && bool_decide (mode fl ≠ ""))%bool then
    _ ← emit (EStderr ("buildifier: cannot specify both -d and -mode flags" +:+ nl));
    mret (Done 2%Z)
  else
    let m := if dflag fl then "diff" else mode fl in
    if bool_decide (m ∉ [""; "check"; "diff"; "fix"]) then
      _ ← emit (EStderr ("buildifier: unrecognized mode " +:+ m +:+
                         "; valid modes are check, diff, fix" +:+ nl));
      mret (Done 2%Z)
    else
      let m := if bool_decide (m = "") then "fix" else m in
      if (bool_decide (path fl ≠ "") && bool_decide (1 < length args))%bool then
        _ ← emit (EStderr ("buildifier: can only format one file when using -path flag" +:+ nl));
        mret (Done 2%Z)
      else
        let '(m, files) :=
          match args with
          | [] => (if bool_decide (m = "fix") then "pipe" else m, ["stdin"])
          | _ :: _ => (m, args)
          end in
        _ ← putFlags (setMode fl m);
        r ← processFiles os files;
        match r with
        | Panicked msg => mret (Panicked msg)
        | Done _ =>
            _ ← emit EDiffRun;
            files ← getToRemove;
            _ ← removeAll files;
            mret (Done exitCode)
        end.

(** The state [main] starts in. *)
Definition initial (fl : Flags) : State := mkState fl [] [] [] [].

(** *** Reading a trace *)

Definition isCoreCall (e : event) : bool :=
  match e with
  | EParse _ _ | EFormat _ | ERewrite _ _ => true
  | _ => false
  end.

(** An output action: the report line of check mode, the bytes written
    to standard output, the diff shown, the file written in place. *)
Definition isOutputAction (e : event) : bool :=
  match e with
  | EPrintf _ | EStdoutWrite _ | EDiffShow _ _ | EWriteFile _ _ => true
  | _ => false
  end.

(** Anything printed for the user to read. *)
Definition isDiagnostic (e : event) : bool :=
  match e with
  | EPrintf _ | EStderr _ => true
  | _ => false
  end.

(** *** Names for the values [processFile] and [main] compute *)

(** The bytes read for [filename]. *)
Definition readInput (os : OS) (filename : string) : result bytes :=
  if bool_decide (filename = "stdin") then ReadStdin os else ReadFile os filename.

(** The parsed file after the [-path] flag is applied. *)
Definition withPath (fl : Flags) (f : File Tree) : File Tree :=
  if bool_decide (path fl ≠ "") then mkFile (path fl) (tree f) else f.

Definition emptyInfo : RewriteInfo Stats := mkInfo [] zeroStats.

(** The file and the info after [build.Rewrite]. *)
Definition rewritten (st : State) (f : File Tree) : File Tree * RewriteInfo Stats :=
  Rewrite (DisableRewrites st) (AllowSort st) (withPath (flags st) f) emptyInfo.

(** [beforeRewrite] and [ndata]. *)
Definition beforeBytes (st : State) (f : File Tree) : bytes :=
  Format (withPath (flags st) f).
Definition finalBytes (st : State) (f : File Tree) : bytes :=
  Format (rewritten st f).1.

(** The flags and arguments with which [main] reaches [processFiles];
    with any other it exits with status 2. *)
Definition accepted (fl : Flags) (args : list string) : bool :=
  negb (dflag fl && bool_decide (mode fl ≠ "")) &&
  bool_decide ((if dflag fl then "diff" else mode fl) ∈ [""; "check"; "diff"; "fix"]) &&
  negb (bool_decide (path fl ≠ "") && bool_decide (1 < length args)).

(** The files [main] hands to [processFiles]. *)
Definition inputFiles (args : list string) : list string :=
  match args with
  | [] => ["stdin"]
  | _ :: _ => args
  end.

(** [st] after temporary files [names] were created and the events [tr]
    took place. *)
Definition advance (st : State) (names : list string) (tr : list event) : State :=
  mkState (flags st) (DisableRewrites st) (AllowSort st)
          (toRemove st ++ names) (trace st ++ tr).

(** The mode [main] hands to [processFile]. *)
Definition effectiveMode (fl : Flags) (args : list string) : string :=
  let m := if dflag fl then "diff" else mode fl in
  let m := if bool_decide (m = "") then "fix" else m in
  match args with
  | [] => if bool_decide (m = "fix") then "pipe" else m
  | _ :: _ => m
  end.

(** A file that can be read and that [build.Parse] refuses. *)
Definition malformed (os : OS) (filename : string) : Prop :=
  exists data f e,
    readInput os filename = Ok data /\ Parse filename data = (f, Some e).

(** Events that are neither calls into package [build] nor output
    actions nor messages. *)
Definition quiet (tr : list event) : Prop :=
  filter isCoreCall tr = [] /\ filter isOutputAction tr = [] /\
  filter isDiagnostic tr = [].

(** The events a step added to the trace of [st]. *)
Definition added (st st' : State) : list event :=
  drop (length (trace st)) (trace st').

End driver.
End Buildifier.

(** ** A small instance of package [build]

    A stand-in for the parser, rewriter and printer, used to run the driver
    on concrete inputs: a file is its bytes, parsing refuses a buffer that
    opens with a closing parenthesis, printing drops the spaces, and the
    one rewrite, [tabs], drops the tabs and logs its name. *)
Module Demo.
Import Build.

Definition space : byte := x20.
Definition tab : byte := x09.
Definition rparen : byte := x29.

Definition demoParse (filename : string) (data : bytes) : File bytes * option error :=
  match data with
  | b :: _ =>
      if bool_decide (b = rparen) then (mkFile "" [], Some "syntax error")
      else (mkFile filename data, None)
  | [] => (mkFile filename data, None)
  end.

Definition demoFormat (f : File bytes) : bytes :=
  filter (fun b => b ≠ space) (tree f).

Definition demoRewrite (disable allow : list string) (f : File bytes)
    (info : RewriteInfo nat) : File bytes * RewriteInfo nat :=
  let t := filter (fun b => b ≠ tab) (tree f) in
  if (bool_decide ("tabs" ∈ disable) || bool_decide (t = tree f))%bool then (f, info)
  else (mkFile (Path f) t, mkInfo (Log info ++ ["tabs"]) (S (stats info))).

#[export] Instance pkg : BuildPackage := {|
  Tree := bytes;
  Stats := nat;
  zeroStats := 0;
  Parse := demoParse;
  Format := demoFormat;
  Rewrite := demoRewrite;
  InfoString := fun info => pretty (stats info)
|}.

(** An operating system with one file per name, whose content is the
    name itself, and on which every write succeeds. *)
Definition os (stdin : string) : Buildifier.OS := {|
  Buildifier.ReadStdin := Ok (bytes_of stdin);
  Buildifier.ReadFile := fun name => Ok (bytes_of name);
  Buildifier.WriteFile := fun _ _ => None;
  Buildifier.TempFile := fun n => Ok ("/tmp/buildifier-tmp-" +:+ pretty n);
  Buildifier.TempWrite := fun _ _ => None
|}.

(** The same, except that no temporary file can be created. *)
Definition osWithoutTemp : Buildifier.OS := {|
  Buildifier.ReadStdin := Ok [];
  Buildifier.ReadFile := fun name => Ok (bytes_of name);
  Buildifier.WriteFile := fun _ _ => None;
  Buildifier.TempFile := fun _ => Err "no space left on device";
  Buildifier.TempWrite := fun _ _ => None
|}.

Definition flagsFor (m : string) : Buildifier.Flags :=
  Buildifier.mkFlags true false false m "" "" "".

End Demo.

(** ** The rule accessors of package [build]

    [File.Rules] and [Rule.Name] are called by the test of [NewBuildFile]
    and defined in another file of the package. *)
Module Rules.

Inductive Literal : Type :=
| LString (value : string)
| LNumber (text : string)
| LBool (b : bool).

Inductive Expr : Type :=
| Identifier (name : string)
| Lit (l : Literal)
| ListLiteral (elems : list Expr)
| TupleLiteral (elems : list Expr)
| DictLiteral (entries : list (Expr * Expr))
| BinaryOp (op : string) (x y : Expr)
| UnaryOp (op : string) (x : Expr)
| CallExpr (callee : Expr) (args : list Expr)
| Assignment (lhs rhs : Expr)
| Comprehension (body : Expr) (var : string) (source : Expr).

(** Modelled from the spec: the data model's Rule, a top-level call whose
    callee is an identifier (the rule kind) and whose arguments are
    keyword attributes and positional arguments, in source order. *)
Record Rule : Type := mkRule {
  Kind : string;
  Args : list Expr
}.

(** A keyword argument [key = value]. *)
Definition keyword (e : Expr) : option (string * Expr) :=
  match e with
  | Assignment (Identifier key) value => Some (key, value)
  | _ => None
  end.

(** Modelled from the spec: the attributes of a rule are an ordered
    mapping with unique keys in which the last occurrence of a key wins;
    a repeated key takes the new value at the place of the first. *)
Fixpoint setAttr (key : string) (value : Expr) (attrs : list (string * Expr))
    : list (string * Expr) :=
  match attrs with
  | [] => [(key, value)]
  | (k, v) :: rest =>
      if bool_decide (k = key) then (k, value) :: rest
      else (k, v) :: setAttr key value rest
  end.

Definition addArg (attrs : list (string * Expr)) (e : Expr) : list (string * Expr) :=
  match keyword e with
  | Some (key, value) => setAttr key value attrs
  | None => attrs
  end.

Definition Attrs (r : Rule) : list (string * Expr) :=
  fold_left addArg (Args r) [].

Definition Positionals (r : Rule) : list Expr :=
  filter (fun e => keyword e = None) (Args r).

Fixpoint lookupAttr (key : string) (attrs : list (string * Expr)) : option Expr :=
  match attrs with
  | [] => None
  | (k, v) :: rest => if bool_decide (k = key) then Some v else lookupAttr key rest
  end.

(** Modelled from the spec: [Rule.Attr(key)] returns the attribute's
    expression value and whether it was present. *)
Definition Attr (r : Rule) (key : string) : option Expr :=
  lookupAttr key (Attrs r).

(** The logical value of a string literal; other expressions have no
    string value. *)
Definition stringValue (e : Expr) : string :=
  match e with
  | Lit (LString s) => s
  | _ => ""
  end.

(** Modelled from the spec: [Rule.Name()] is the value of the [name]
    keyword attribute if present, otherwise the first positional argument
    if one exists and is a string literal, otherwise the empty string. *)
Definition Name (r : Rule) : string :=
  match Attr r "name" with
  | Some value => stringValue value
  | None =>
      match Positionals r with
      | Lit (LString s) :: _ => s
      | _ => ""
      end
  end.



End Rules.

(** ** The rewrite pipeline of package [build]

    [build.Rewrite] is called by the driver and defined in another file of
    the package. *)
Module Rewriter.

Section pipeline.
(** The syntax tree of a file. *)
Context {T : Type}.

(** Modelled from the spec: a rewrite pass has a name, changes the tree
    and describes each change it made. *)
Record Pass : Type := mkPass {
  passName : string;
  passApply : T -> T * list string
}.

(** Modelled from the spec: [rewrite] runs an ordered, fixed list of
    passes once, skips the passes disabled by name, appends each pass's
    descriptions to the shared log, and has no error return. *)
Fixpoint rewrite (disable : list string) (passes : list Pass)
    (f : T) (log : list string) : T * list string :=
  match passes with
  | [] => (f, log)
  | p :: rest =>
      if bool_decide (passName p ∈ disable) then rewrite disable rest f log
      else
        let '(f', entries) := passApply p f in
        rewrite disable rest f' (log ++ entries)
  end.

(** The pass finds nothing to change in [f]. *)
Definition settled (p : Pass) (f : T) : Prop :=
  passApply p f = (f, []).

(** Modelled from the spec: each pass is idempotent; applying it twice
    produces no further changes and no further log entries. *)
Definition idempotent (p : Pass) : Prop :=
  forall f, settled p (passApply p f).1.

(** Modelled from the spec: no pass re-introduces a condition an
    earlier pass resolved. *)
Definition keeps (q p : Pass) : Prop :=
  forall f, settled p f -> settled p (passApply q f).1.

Fixpoint ordered (passes : list Pass) : Prop :=
  match passes with
  | [] => True
  | p :: rest => Forall (fun q => keeps q p) rest /\ ordered rest
  end.
End pipeline.
Arguments Pass T : clear implicits.

(** Two passes over a list attribute's strings: sorting, then dropping
    repeated entries. *)
Definition changed (name : string) (old new : list string) : list string :=
  if bool_decide (new = old) then [] else [name].

Definition sortPass : Pass (list string) :=
  mkPass "listsort" (fun l => (Go.SortStrings l, changed "listsort" l (Go.SortStrings l))).

Definition dedupPass : Pass (list string) :=
  mkPass "dedup" (fun l => (remove_dups l, changed "dedup" l (remove_dups l))).

(** The list printed on one line. *)
Definition printList (l : list string) : bytes := bytes_of (Go.Join l ",").

End Rewriter.

(** ** What one call of [processFile] does, read off its inputs

    The result, the temporary files created and the events of a call,
    written without the state monad; [DriverFacts.processFile_effects]
    shows that [processFile] does exactly this. *)
Module Effects.
Import Build Buildifier.

(** The number of commas in a flag value. *)
Fixpoint commas (s : string) : nat :=
  match s with
  | "" => 0
  | String c s' => (if bool_decide (c = ","%char) then 1 else 0) + commas s'
  end.

Section effects.
Context `{BuildPackage}.

Definition effects : Type := ending (option error) * list string * list event.

(** [writeTemp] when [n] temporary files exist already. *)
Definition tempEffects (os : OS) (n : nat) (data : bytes)
    : result string * list string * list event :=
  match TempFile os n with
  | Err err => (Err ("creating temporary file: " +:+ err), [], [])
  | Ok name =>
      (match TempWrite os name data with
       | Some err => Err ("writing temporary file: " +:+ err)
       | None => Ok name
       end, [name], [ECreateTemp name; EWriteTemp name data])
  end.

Definition diffEffects (os : OS) (n : nat) (filename : string) (data ndata : bytes)
    : effects :=
  if Go.Equal data ndata then (Done None, [], [])
  else
    let '(out, names1, tr1) := tempEffects os n ndata in
    match out with
    | Err err => (Done (Some err), names1, tr1)
    | Ok outfile =>
        if bool_decide (filename = "") then
          let '(inp, names2, tr2) := tempEffects os (n + length names1) data in
          match inp with
          | Err err => (Done (Some err), names1 ++ names2, tr1 ++ tr2)
          | Ok infile =>
              (Done None, names1 ++ names2, tr1 ++ tr2 ++ [EDiffShow infile outfile])
          end
        else (Done None, names1, tr1 ++ [EDiffShow filename outfile])
    end.

Definition fixEffects (os : OS) (fl : Flags) (filename : string) (data ndata : bytes)
    : effects :=
  if Go.Equal data ndata then (Done None, [], [])
  else
    match WriteFile os filename ndata with
    | Some err => (Done (Some err), [], [EWriteFile filename ndata])
    | None =>
        (Done None, [],
         EWriteFile filename ndata ::
         if vflag fl then [EStderr ("fixed " +:+ filename +:+ nl)] else [])
    end.

Definition modeEffects (os : OS) (st : State) (filename : string)
    (data : bytes) (f : File Tree) : effects :=
  let fl := flags st in
  let ndata := finalBytes st f in
  if bool_decide (mode fl = "check") then
    (Done None, [],
     if Go.Equal data ndata then []
     else [EPrintf (checkReport fl filename data (beforeBytes st f) (rewritten st f).2)])
  else if bool_decide (mode fl = "diff") then
    diffEffects os (length (toRemove st)) filename data ndata
  else if bool_decide (mode fl = "pipe") then (Done None, [], [EStdoutWrite ndata])
  else if bool_decide (mode fl = "fix") then fixEffects os fl filename data ndata
  else (Panicked ("mode not supported: " +:+ mode fl), [], []).

(** The calls into package [build] for a file that parses. *)
Definition coreCalls (st : State) (filename : string) (data : bytes) (f : File Tree)
    : list event :=
  [EParse filename data;
   EFormat (withPath (flags st) f);
   ERewrite (withPath (flags st) f) emptyInfo;
   EFormat (rewritten st f).1].

Definition fileEffects (os : OS) (st : State) (filename : string) : effects :=
  match readInput os filename with
  | Err err => (Done (Some err), [], [])
  | Ok data =>
      match Parse filename data with
      | (_, Some _) => (Done None, [], [EParse filename data])
      | (f, None) =>
          let '(r, names, tr) := modeEffects os st filename data f in
          (r, names, coreCalls st filename data f ++ tr)
      end
  end.

(** *** Reading a trace, continued *)

(** The temporary files created, the files removed, the files written in
    place and the lines printed on standard error, oldest first. *)
Definition createdTemps (tr : list event) : list string :=
  omap (fun e => match e with ECreateTemp name => Some name | _ => None end) tr.


Definition writtenFiles (tr : list event) : list (string * bytes) :=
  omap (fun e => match e with EWriteFile name b => Some (name, b) | _ => None end) tr.

Definition stderrLines (tr : list event) : list string :=
  omap (fun e => match e with EStderr s => Some s | _ => None end) tr.

(** The events a call of [processFile] in mode [m] may add: the calls
    into package [build] in any mode, and the actions of the mode. *)
Definition ownAction (m : string) (e : event) : bool :=
  match e with
  | EParse _ _ | EFormat _ | ERewrite _ _ => true
  | EPrintf _ => bool_decide (m = "check")
  | ECreateTemp _ | EWriteTemp _ _ | EDiffShow _ _ => bool_decide (m = "diff")
  | EStdoutWrite _ => bool_decide (m = "pipe")
  | EWriteFile _ _ | EStderr _ => bool_decide (m = "fix")
  | EDiffRun | ERemove _ => false
  end.



End effects.
End Effects.

(** ** Operating systems for the scenarios of the driver *)
Module Scenarios.


(** Files can be read and none can be written. *)
Definition osReadOnly : Buildifier.OS := {|
  Buildifier.ReadStdin := Ok [];
  Buildifier.ReadFile := fun name => Ok (bytes_of name);
  Buildifier.WriteFile := fun name _ => Some ("open " +:+ name +:+ ": permission denied");
  Buildifier.TempFile := fun n => Ok ("/tmp/buildifier-tmp-" +:+ pretty n);
  Buildifier.TempWrite := fun _ _ => None
|}.

End Scenarios.

(** * Properties *)

(** ** [NewBuildFile] *)
Module BuildFacts.
Import Build.

(** The template parses, and executing it on [doc] writes [generated]. *)
Lemma template_runs :
  exists tmpl,
    Template.Parse templateText = Ok tmpl /\ Template.Execute tmpl doc = Ok generated.
Proof. eexists. split; vm_compute; reflexivity. Qed.

Lemma NewBuildFile_eq `{BuildPackage} :
  NewBuildFile = Returns [generated] (Parse "generated" (bytes_of generated)).
Proof.
  unfold NewBuildFile. destruct template_runs as (tmpl & -> & ->). reflexivity.
Qed.

(** C8.  [NewBuildFile] never ends the process: the constant template
    parses and executes on [doc] without error, so neither [log.Fatalf]
    branch is reached, and the call returns what [Parse] returns. *)
Theorem NewBuildFile_never_fatal `{BuildPackage} :
  (exists tmpl b,
     Template.Parse templateText = Ok tmpl /\ Template.Execute tmpl doc = Ok b) /\
  (exists logged r, NewBuildFile = Returns logged r) /\
  (forall msg, NewBuildFile <> Fatal msg).
Proof.
  split.
  - destruct template_runs as (tmpl & Hp & He). by exists tmpl, generated.
  - rewrite NewBuildFile_eq. split; [by eauto | done].
Qed.

(** C10.  [NewBuildFile] takes no input, always generates the document
    [generated] -- a [go_library] call whose one attribute is the quoted
    key [srcs], a colon and the list holding [src.go], with no equals
    sign anywhere -- and returns the result of [Parse] on the name
    [generated] and these bytes. *)
Theorem NewBuildFile_fixed_document `{BuildPackage} :
  NewBuildFile = Returns [generated] (Parse "generated" (bytes_of generated)) /\
  String.words generated =
    ["go_library("; dq +:+ "srcs" +:+ dq; ":"; "["; dq +:+ "src.go" +:+ dq +:+ ","; "],"; ")"] /\
  Template.hasChar "=" generated = false.
Proof.
  split; [apply NewBuildFile_eq | split; vm_compute; reflexivity].
Qed.

End BuildFacts.

(** ** The driver *)
Module BuildifierFacts.
Import Build Buildifier.

Ltac run :=
  unfold mbind, mret, M_bind, M_ret, emit, getFlags, getRewriteConfig,
    getToRemove, appendToRemove, putFlags, putRewriteConfig in *; simpl in *.

Section driver_facts.
Context `{BuildPackage}.

Lemma logged_nil st : logged st [] = st.
Proof. destruct st. unfold logged. simpl. by rewrite app_nil_r. Qed.

Lemma logged_logged st tr1 tr2 : logged (logged st tr1) tr2 = logged st (tr1 ++ tr2).
Proof. unfold logged. simpl. by rewrite app_assoc. Qed.

Lemma added_logged st tr : added st (logged st tr) = tr.
Proof. unfold added, logged. simpl. by rewrite drop_app_length. Qed.

Lemma processFile_parse_error os filename st data e :
  readInput os filename = Ok data ->
  (Parse filename data).2 = Some e ->
  processFile os filename st = (Done None, logged st [EParse filename data]).
Proof.
  unfold processFile, readInput. intros -> Hp. run.
  destruct (Parse filename data) as [f [e'|]]; simpl in *; [done | discriminate].
Qed.

Lemma processFile_parsed os filename st data f :
  readInput os filename = Ok data ->
  Parse filename data = (f, None) ->
  processFile os filename st =
    modeSwitch os (flags st) filename data (beforeBytes st f) (finalBytes st f)
      (rewritten st f).2
      (logged st [EParse filename data;
                  EFormat (withPath (flags st) f);
                  ERewrite (withPath (flags st) f) emptyInfo;
                  EFormat (rewritten st f).1]).
Proof.
  unfold processFile, readInput. intros -> ->. run.
  unfold finalBytes, beforeBytes, rewritten, withPath, emptyInfo.
  destruct (Rewrite _ _ _ _) as [f1 info1]. simpl.
  by rewrite !logged_logged.
Qed.

Lemma checkMode_run fl filename data before ndata info st :
  checkMode fl filename data before ndata info st =
    (Done None,
     logged st (if Go.Equal data ndata then []
                else [EPrintf (checkReport fl filename data before info)])).
Proof.
  unfold checkMode. destruct (Go.Equal data ndata); simpl; run;
    by rewrite ?logged_nil.
Qed.

Lemma pipeMode_run ndata st :
  pipeMode ndata st = (Done None, logged st [EStdoutWrite ndata]).
Proof. reflexivity. Qed.

Lemma fixMode_run os fl filename data ndata st :
  exists r tr,
    fixMode os fl filename data ndata st = (Done r, logged st tr) /\
    filter isCoreCall tr = [] /\
    filter isOutputAction tr =
      (if Go.Equal data ndata then [] else [EWriteFile filename ndata]).
Proof.
  unfold fixMode. destruct (Go.Equal data ndata); run.
  { exists None, []. by rewrite logged_nil. }
  destruct (WriteFile os filename ndata) as [err|]; run.
  { by exists (Some err), [EWriteFile filename ndata]. }
  destruct (vflag fl); run.
  - eexists None, [_; _]. rewrite logged_logged. done.
  - by exists None, [EWriteFile filename ndata].
Qed.

Lemma advance_nil st : advance st [] [] = st.
Proof. destruct st. unfold advance. simpl. by rewrite !app_nil_r. Qed.

Lemma logged_advance st tr : logged st tr = advance st [] tr.
Proof. unfold logged, advance. by rewrite app_nil_r. Qed.

Lemma advance_advance st n1 t1 n2 t2 :
  advance (advance st n1 t1) n2 t2 = advance st (n1 ++ n2) (t1 ++ t2).
Proof. unfold advance. simpl. by rewrite !app_assoc. Qed.

Lemma added_advance st names tr : added st (advance st names tr) = tr.
Proof. unfold added, advance. simpl. by rewrite drop_app_length. Qed.

Lemma writeTemp_run os data st :
  exists r names tr,
    writeTemp os data st = (r, advance st names tr) /\ quiet tr.
Proof.
  unfold writeTemp. run. destruct (TempFile _ _) as [name|err]; run.
  - exists (match TempWrite os name data with
            | Some err => Err ("writing temporary file: " +:+ err)
            | None => Ok name
            end), [name], [ECreateTemp name; EWriteTemp name data].
    split; [|done].
    destruct (TempWrite os name data); unfold logged, advance; simpl;
      by rewrite <- !app_assoc.
  - exists (Err ("creating temporary file: " +:+ err)), [], [].
    by rewrite advance_nil.
Qed.

Lemma diffMode_run os filename data ndata st :
  exists r names tr,
    diffMode os filename data ndata st = (Done r, advance st names tr) /\
    filter isCoreCall tr = [] /\
    if Go.Equal data ndata then r = None /\ names = [] /\ tr = []
    else (r = None /\ exists infile outfile,
            filter isOutputAction tr = [EDiffShow infile outfile]) \/
         (exists err, r = Some err /\ filter isOutputAction tr = []).
Proof.
  unfold diffMode. destruct (Go.Equal data ndata).
  { exists None, [], []. by rewrite advance_nil. }
  destruct (writeTemp_run os ndata st) as (r1 & n1 & t1 & E1 & Q1a & Q1b & Q1c).
  run. rewrite E1. destruct r1 as [outfile|err]; run.
  2: { exists (Some err), n1, t1. repeat split; eauto. }
  destruct (bool_decide (filename = "")).
  - destruct (writeTemp_run os data (advance st n1 t1))
      as (r2 & n2 & t2 & E2 & Q2a & Q2b & Q2c).
    run. rewrite E2. destruct r2 as [infile|err]; run.
    + exists None, (n1 ++ n2), (t1 ++ t2 ++ [EDiffShow infile outfile]).
      rewrite logged_advance, !advance_advance, app_nil_r, app_assoc.
      split; [done|]. rewrite !filter_app, Q1a, Q2a, Q1b, Q2b. split; [done|].
      left. eauto.
    + exists (Some err), (n1 ++ n2), (t1 ++ t2).
      rewrite advance_advance. rewrite !filter_app, Q1a, Q2a, Q1b, Q2b. eauto 10.
  - run. exists None, n1, (t1 ++ [EDiffShow filename outfile]).
    rewrite logged_advance, advance_advance, app_nil_r.
    rewrite !filter_app, Q1a, Q1b. split; [done|]. split; [done|]. left. eauto.
Qed.

Lemma mode_cases (fl : Flags) :
  mode fl ∈ ["check"; "diff"; "pipe"; "fix"] ->
  mode fl = "check" \/ mode fl = "diff" \/ mode fl = "pipe" \/ mode fl = "fix".
Proof. rewrite !elem_of_cons, elem_of_nil. tauto. Qed.


Lemma modeSwitch_run os fl filename data before ndata info st :
  mode fl ∈ ["check"; "diff"; "pipe"; "fix"] ->
  exists r names tr,
    modeSwitch os fl filename data before ndata info st = (Done r, advance st names tr).
Proof.
  intros Hm. unfold modeSwitch.
  destruct (mode_cases _ Hm) as [E|[E|[E|E]]]; rewrite E; simpl.
  - rewrite checkMode_run, logged_advance. eauto.
  - destruct (diffMode_run os filename data ndata st) as (r & n & t & -> & _). eauto.
  - rewrite pipeMode_run, logged_advance. eauto.
  - destruct (fixMode_run os fl filename data ndata st) as (r & t & -> & _).
    rewrite logged_advance. eauto.
Qed.

Lemma processFile_run os filename st :
  mode (flags st) ∈ ["check"; "diff"; "pipe"; "fix"] ->
  exists r names tr, processFile os filename st = (Done r, advance st names tr).
Proof.
  intros Hm. destruct (readInput os filename) as [data|err] eqn:Hread.
  - destruct (Parse filename data) as [f [e|]] eqn:Hparse.
    + rewrite (processFile_parse_error _ _ _ data e), logged_advance by (by try rewrite Hparse).
      eauto.
    + rewrite (processFile_parsed _ _ _ _ _ Hread Hparse).
      edestruct modeSwitch_run as (r & n & t & ->); [exact Hm|].
      rewrite logged_advance, advance_advance. eauto.
  - unfold processFile, readInput in *. rewrite Hread. run.
    exists (Some err), [], []. by rewrite advance_nil.
Qed.

Lemma workers_cons os filename rest st :
  workers os (filename :: rest) st =
    let '(r, st1) := processFile os filename st in
    match r with
    | Panicked msg => (Panicked msg, st1)
    | Done err =>
        let '(rs, st2) := workers os rest st1 in
        match rs with
        | Panicked msg => (Panicked msg, st2)
        | Done ch => (Done (match err with
                            | Some e => (filename, e) :: ch
                            | None => ch
                            end), st2)
        end
    end.
Proof.
  cbn [workers]. unfold mbind, M_bind.
  destruct (processFile os filename st) as [[err|msg] st1]; [|done].
  by destruct (workers os rest st1) as [[ch|msg] st2].
Qed.

Lemma workers_run os files st :
  mode (flags st) ∈ ["check"; "diff"; "pipe"; "fix"] ->
  exists ch names tr, workers os files st = (Done ch, advance st names tr).
Proof.
  revert st. induction files as [|filename rest IH]; intros st Hm.
  { exists [], [], []. by rewrite advance_nil. }
  rewrite workers_cons.
  destruct (processFile_run os filename st Hm) as (r & n1 & t1 & ->).
  destruct (IH (advance st n1 t1) Hm) as (ch & n2 & t2 & ->).
  rewrite advance_advance. eauto.
Qed.

Lemma reportErrors_run ch st :
  reportErrors ch st =
    (tt, logged st (map (fun res => EStderr ("buildifier: " +:+ res.2 +:+ nl)) ch)).
Proof.
  revert st. induction ch as [|[file err] rest IH]; intros st; simpl.
  { by rewrite logged_nil. }
  run. by rewrite IH, logged_logged.
Qed.

Lemma removeAll_run files st :
  removeAll files st = (tt, logged st (map ERemove files)).
Proof.
  revert st. induction files as [|file rest IH]; intros st; simpl.
  { by rewrite logged_nil. }
  run. by rewrite IH, logged_logged.
Qed.

Lemma processFiles_cons os filename rest st :
  processFiles os (filename :: rest) st =
    let '(r, st1) := workers os (filename :: rest) st in
    match r with
    | Panicked msg => (Panicked msg, st1)
    | Done ch => (Done tt, (reportErrors ch st1).2)
    end.
Proof.
  unfold processFiles, mbind, M_bind.
  destruct (workers os (filename :: rest) st) as [[ch|msg] st1]; [|done].
  by destruct (reportErrors ch st1) as [[] st2].
Qed.

Lemma processFiles_run os files st :
  mode (flags st) ∈ ["check"; "diff"; "pipe"; "fix"] ->
  exists names tr, processFiles os files st = (Done tt, advance st names tr).
Proof.
  intros Hm. destruct files as [|filename rest].
  { exists [], []. by rewrite advance_nil. }
  rewrite processFiles_cons.
  destruct (workers_run os (filename :: rest) st Hm) as (ch & n & t & ->).
  rewrite reportErrors_run, logged_advance, advance_advance. simpl. eauto.
Qed.

Lemma effectiveMode_supported fl args :
  accepted fl args = true ->
  effectiveMode fl args ∈ ["check"; "diff"; "pipe"; "fix"].
Proof.
  unfold accepted, effectiveMode.
  rewrite !andb_true_iff, bool_decide_eq_true. intros [[_ Hm] _].
  revert Hm. generalize (if dflag fl then "diff" else mode fl). intros m.
  rewrite !elem_of_cons, elem_of_nil.
  intros [->|[->|[->|[->|[]]]]]; destruct args; vm_compute; auto 10.
Qed.

Lemma main_accepted os fl args :
  accepted fl args = true ->
  main os args (initial fl) =
    let st := mkState (setMode fl (effectiveMode fl args))
                (stringList (buildifier_disable fl)) (stringList (allowsort fl)) [] [] in
    let '(r, st1) := processFiles os (inputFiles args) st in
    match r with
    | Panicked msg => (Panicked msg, st1)
    | Done _ => (Done exitCode, logged (logged st1 [EDiffRun]) (map ERemove (toRemove st1)))
    end.
Proof.
  unfold accepted. rewrite !andb_true_iff, !negb_true_iff.
  intros [[Hd Hm] Hp]. unfold main.
  unfold mbind, M_bind, getFlags, putRewriteConfig, initial. cbn [flags].
  rewrite Hd. cbv zeta.
  apply bool_decide_eq_true in Hm.
  rewrite (bool_decide_eq_false_2 (_ ∉ _)) by (intros Hn; exact (Hn Hm)).
  rewrite Hp. unfold effectiveMode, inputFiles.
  set (m := if bool_decide ((if dflag fl then "diff" else mode fl) = "") then "fix"
            else if dflag fl then "diff" else mode fl).
  cbn [toRemove trace].
  destruct args as [|a args'];
    unfold putFlags; cbn [DisableRewrites AllowSort toRemove trace];
    (destruct (processFiles os _ _) as [[[]|msg] st1]; [|done]);
    unfold emit, getToRemove; by rewrite removeAll_run.
Qed.
(** X1.  Whatever the files hold, [main] ends with [os.Exit]: status 0 when it
    accepts its flags, status 2 when it does not. *)
Theorem main_exit_status os fl args :
  exists st',
    main os args (initial fl) = (Done (if accepted fl args then 0 else 2)%Z, st').
Proof.
  destruct (accepted fl args) eqn:Hacc.
  - rewrite (main_accepted _ _ _ Hacc). cbv zeta.
    edestruct processFiles_run as (n & t & ->);
      [exact (effectiveMode_supported _ _ Hacc)|]. eauto.
  - unfold accepted in Hacc. unfold main.
    unfold mbind, M_bind, getFlags, putRewriteConfig, initial. cbn [flags].
    destruct (dflag fl && bool_decide (mode fl ≠ ""))%bool; [by eexists|].
    cbv zeta. simpl in Hacc.
    destruct (decide ((if dflag fl then "diff" else mode fl) ∈ [""; "check"; "diff"; "fix"]))
      as [Hin|Hnin].
    + rewrite (bool_decide_eq_false_2 (_ ∉ _)) by (intros Hn; exact (Hn Hin)).
      rewrite (bool_decide_eq_true_2 _ Hin) in Hacc. simpl in Hacc.
      apply negb_false_iff in Hacc. rewrite Hacc. by eexists.
    + rewrite (bool_decide_eq_true_2 (_ ∉ _) Hnin). by eexists.
Qed.

Lemma workers_malformed os files st :
  Forall (malformed os) files ->
  exists tr,
    workers os files st = (Done [], logged st tr) /\
    filter isDiagnostic tr = [] /\ filter isOutputAction tr = [].
Proof.
  intros Hall. revert st. induction Hall as [|filename rest Hbad _ IH]; intros st.
  { exists []. by rewrite logged_nil. }
  destruct Hbad as (data & f & e & Hread & Hparse).
  rewrite workers_cons, (processFile_parse_error _ _ _ data e) by (by try rewrite Hparse).
  destruct (IH (logged st [EParse filename data])) as (tr & -> & Hd & Ho).
  exists (EParse filename data :: tr). rewrite logged_logged. split; [done|].
  by rewrite !filter_cons, Hd, Ho.
Qed.

(** C9.  When [build.Parse] returns an error for each file of a run,
    [processFile] returns nil for each of them after the call to
    [Parse] and nothing else, [main] prints no message and it exits
    with [exitCode], which is 0. *)
Theorem parse_error_is_silent os fl args :
  accepted fl args = true ->
  Forall (malformed os) (inputFiles args) ->
  (forall filename st, filename ∈ inputFiles args ->
     exists data, processFile os filename st =
                    (Done None, logged st [EParse filename data])) /\
  exists st',
    main os args (initial fl) = (Done exitCode, st') /\ exitCode = 0%Z /\
    filter isDiagnostic (trace st') = [].
Proof.
  intros Hacc Hall. split.
  - intros filename st Hin. rewrite Forall_forall in Hall.
    destruct (Hall _ Hin) as (data & f & e & Hread & Hparse).
    exists data. apply (processFile_parse_error _ _ _ data e); by try rewrite Hparse.
  - rewrite (main_accepted _ _ _ Hacc). cbv zeta.
    assert (exists file rest, inputFiles args = file :: rest) as (file & rest & Hfiles)
      by (destruct args; simpl; eauto).
    rewrite Hfiles in *. rewrite processFiles_cons.
    edestruct workers_malformed as (tr & -> & Hd & _); [exact Hall|].
    eexists. split; [reflexivity|]. split; [done|].
    simpl. rewrite !filter_app, Hd. done.
Qed.
End driver_facts.

Import Demo.



(** [parse_error_is_silent] at a run over one file that does not parse. *)
Lemma parse_error_is_silent_run :
  exists st',
    main (Demo.os "") [")z"] (initial (Demo.flagsFor "check")) = (Done 0%Z, st') /\
    filter isDiagnostic (trace st') = [].
Proof.
  destruct (parse_error_is_silent (Demo.os "") (Demo.flagsFor "check") [")z"] eq_refl)
    as [_ (st' & E & _ & Hd)].
  { repeat constructor. eexists _, _, _. split; reflexivity. }
  exists st'. split; [exact E | exact Hd].
Defined.

Section log_facts.
Implicit Types (s last : string) (log uniq : list string).

Lemma uniqFrom_app last uniq log :
  uniqFrom last uniq log = uniq ++ uniqFrom last [] log.
Proof.
  revert last uniq. induction log as [|s rest IH]; intros last uniq; simpl.
  { by rewrite app_nil_r. }
  case_bool_decide; [|apply IH].
  rewrite (IH s (uniq ++ [s])), (IH s [s]). by rewrite <- app_assoc.
Qed.

Lemma uniqFrom_sorted last log :
  StronglySorted String.le (last :: log) ->
  (forall s, s ∈ uniqFrom last [] log <-> s ∈ log /\ s <> last) /\
  NoDup (uniqFrom last [] log) /\
  StronglySorted String.le (uniqFrom last [] log).
Proof.
  revert last. induction log as [|s rest IH]; intros last Hs; simpl.
  { split; [|split; constructor]. intros s. rewrite elem_of_nil. tauto. }
  apply StronglySorted_inv in Hs as [Hrest Hlast].
  apply Forall_cons in Hlast as [Hls Hlrest].
  case_bool_decide as Hne.
  - destruct (IH s Hrest) as (Hin & Hnd & Hsd).
    rewrite uniqFrom_app. simpl.
    apply StronglySorted_inv in Hrest as [Hrest' Hsrest].
    split; [|split].
    + intros x. rewrite !elem_of_cons, Hin. split.
      * intros [->|[Hx Hxs]]; [by auto|]. split; [by auto|].
        intros ->. apply Hxs. apply (anti_symm String.le); [done|].
        rewrite Forall_forall in Hsrest. by apply Hsrest.
      * intros [[->|Hx] Hxl]; [by left|].
        destruct (decide (x = s)) as [->|]; [by left | by right].
    + constructor; [|done]. rewrite Hin. tauto.
    + constructor; [done|]. rewrite Forall_forall in *.
      intros x Hx. apply Hin in Hx as [Hx _]. by apply Hsrest.
  - subst s.
    destruct (IH last) as (Hin & Hnd & Hsd).
    { constructor; [|done]. by apply StronglySorted_inv in Hrest as [? _]. }
    split; [|done]. intros x. rewrite elem_of_cons, Hin. split; [tauto|].
    intros [[->|Hx] Hxl]; tauto.
Qed.

Lemma empty_le s : String.le "" s.
Proof. by destruct s. Qed.

(** X12.  The entries check mode prints are in increasing order without
    repetition, and they are the entries of the log other than the
    empty string. *)
Theorem uniqLog_entries log :
  StronglySorted String.le (uniqLog log) /\
  NoDup (uniqLog log) /\
  forall s, s ∈ uniqLog log <-> s ∈ log /\ s <> "".
Proof.
  unfold uniqLog, Go.SortStrings.
  destruct (uniqFrom_sorted "" (merge_sort String.le log)) as (Hin & Hnd & Hsd).
  { constructor; [apply StronglySorted_merge_sort; apply _|].
    apply Forall_forall. intros s _. apply empty_le. }
  split; [done|]. split; [done|]. intros s.
  by rewrite Hin, merge_sort_Permutation.
Qed.

End log_facts.

(** In diff mode, when no temporary file can be created, [processFile]
    returns the error and shows no diff although the printed file differs
    from the input. *)
Lemma diff_without_temporary_file :
  let st := initial (Demo.flagsFor "diff") in
  let run := processFile Demo.osWithoutTemp "x y" st in
  run.1 = Done (Some "creating temporary file: no space left on device") /\
  finalBytes st (mkFile "x y" (bytes_of "x y")) = bytes_of "xy" /\
  filter isOutputAction (trace run.2) = [].
Proof. vm_compute. repeat split; reflexivity. Qed.

End BuildifierFacts.

(** ** The rule accessors *)
Module RulesFacts.
Import Rules.






Example Name_keyword_over_positional :
  Name (mkRule "go_library"
          [Lit (LString "positional");
           Assignment (Identifier "name") (Lit (LString "keyword"))]) = "keyword".
Proof. reflexivity. Qed.
End RulesFacts.

(** ** The rewrite pipeline *)
Module RewriterFacts.
Import Rewriter.

Section pipeline_facts.
Context {T : Type}.
Implicit Types (p q : Pass T) (passes : list (Pass T)) (f : T) (log : list string).

(** A pass that is disabled or finds nothing to change is skipped. *)
Lemma rewrite_settled disable passes f log :
  Forall (fun p => passName p ∈ disable \/ settled p f) passes ->
  rewrite disable passes f log = (f, log).
Proof.
  induction 1 as [|p rest Hp _ IH]; simpl; [done|].
  case_bool_decide as Hd; [done|].
  destruct Hp as [?|Hp]; [done|]. unfold settled in Hp. rewrite Hp.
  by rewrite app_nil_r.
Qed.

(** What an earlier pass resolved stays resolved through later passes. *)
Lemma rewrite_keeps disable p passes f log :
  Forall (fun q => keeps q p) passes ->
  settled p f ->
  settled p (rewrite disable passes f log).1.
Proof.
  intros Hk. revert f log. induction Hk as [|q rest Hq _ IH]; intros f log Hs; simpl; [done|].
  case_bool_decide; [by apply IH|].
  destruct (passApply q f) as [f' entries] eqn:E.
  apply IH. specialize (Hq f Hs). by rewrite E in Hq.
Qed.

Lemma rewrite_result_settled disable passes f log :
  Forall idempotent passes ->
  ordered passes ->
  Forall (fun p => passName p ∈ disable \/
                   settled p (rewrite disable passes f log).1) passes.
Proof.
  intros Hid. revert f log.
  induction Hid as [|p rest Hp _ IH]; intros f log Ho; simpl; [done|].
  destruct Ho as [Hk Ho]. case_bool_decide as Hd.
  - constructor; [by left | by apply IH].
  - destruct (passApply p f) as [f' entries] eqn:E.
    constructor; [|by apply IH].
    right. apply rewrite_keeps; [done|].
    specialize (Hp f). by rewrite E in Hp.
Qed.

(** C3.  When every pass is idempotent and no pass re-introduces what
    an earlier pass resolved, running the pipeline a second time on the
    rewritten tree appends nothing to the log and leaves the formatted
    output as it was. *)
Theorem rewrite_twice (Format : T -> bytes) passes disable f log :
  Forall idempotent passes ->
  ordered passes ->
  (rewrite disable passes (rewrite disable passes f log).1
                          (rewrite disable passes f log).2).2 =
    (rewrite disable passes f log).2 /\
  Format (rewrite disable passes (rewrite disable passes f log).1
                                 (rewrite disable passes f log).2).1 =
    Format (rewrite disable passes f log).1.
Proof.
  intros Hid Ho.
  by rewrite rewrite_settled by by apply rewrite_result_settled.
Qed.
End pipeline_facts.

Lemma remove_dups_NoDup (l : list string) : NoDup l -> remove_dups l = l.
Proof.
  induction 1 as [|x l Hx _ IH]; simpl; [done|].
  destruct (decide_rel _ x l); [done | by rewrite IH].
Qed.

Lemma remove_dups_sorted (l : list string) :
  StronglySorted String.le l -> StronglySorted String.le (remove_dups l).
Proof.
  induction 1 as [|x l _ IH Hx]; simpl; [constructor|].
  destruct (decide_rel _ x l); [done|]. constructor; [done|].
  rewrite Forall_forall in *. intros y Hy. apply Hx. by apply elem_of_remove_dups.
Qed.

Lemma SortStrings_sorted (l : list string) :
  StronglySorted String.le l -> Go.SortStrings l = l.
Proof.
  intros Hl. apply (StronglySorted_unique String.le); [|done|].
  - apply StronglySorted_merge_sort; apply _.
  - apply merge_sort_Permutation.
Qed.

Lemma changed_same name (l : list string) : changed name l l = [].
Proof. unfold changed. by rewrite bool_decide_eq_true_2. Qed.

Lemma sortPass_settled (l : list string) :
  settled sortPass l <-> StronglySorted String.le l.
Proof.
  unfold settled. simpl. split.
  - intros [= Hl _]. rewrite <- Hl. apply StronglySorted_merge_sort; apply _.
  - intros Hl. by rewrite SortStrings_sorted, changed_same.
Qed.

Lemma sortPass_idempotent : idempotent sortPass.
Proof.
  intros l. apply sortPass_settled. simpl.
  apply StronglySorted_merge_sort; apply _.
Qed.

Lemma dedupPass_idempotent : idempotent dedupPass.
Proof.
  intros l. unfold settled. simpl.
  by rewrite remove_dups_NoDup, changed_same by apply NoDup_remove_dups.
Qed.

Lemma dedupPass_keeps_sorted : keeps dedupPass sortPass.
Proof.
  intros l. rewrite !sortPass_settled. simpl. apply remove_dups_sorted.
Qed.

(** [rewrite_twice] at the passes that sort and deduplicate a list. *)
Lemma rewrite_twice_sort_dedup :
  let passes := [sortPass; dedupPass] in
  let once := rewrite [] passes ["b.go"; "a.go"; "b.go"] [] in
  let twice := rewrite [] passes once.1 once.2 in
  once = (["a.go"; "b.go"], ["listsort"; "dedup"]) /\
  twice.2 = once.2 /\ printList twice.1 = printList once.1.
Proof.
  intros passes once twice. split; [reflexivity|].
  apply (rewrite_twice printList passes [] ["b.go"; "a.go"; "b.go"] []).
  - repeat constructor; [apply sortPass_idempotent | apply dedupPass_idempotent].
  - repeat constructor. apply dedupPass_keeps_sorted.
Defined.
End RewriterFacts.

(** ** The driver, continued *)
Module DriverFacts.
Import Build Buildifier BuildifierFacts Effects.

Set Warnings "-clear-no-such-hyp".

Section effects_facts.
Context `{BuildPackage}.

Lemma writeTemp_effects os data st :
  writeTemp os data st =
    ((tempEffects os (length (toRemove st)) data).1.1,
     advance st (tempEffects os (length (toRemove st)) data).1.2
                (tempEffects os (length (toRemove st)) data).2).
Proof.
  unfold writeTemp, tempEffects.
  unfold mbind, mret, M_bind, M_ret, getToRemove, emit, appendToRemove.
  destruct (TempFile os _) as [name|err]; simpl; [|by rewrite advance_nil].
  destruct (TempWrite os name data); unfold logged, advance; simpl;
    by rewrite <- !app_assoc.
Qed.

Lemma diffMode_effects os filename data ndata st :
  diffMode os filename data ndata st =
    ((diffEffects os (length (toRemove st)) filename data ndata).1.1,
     advance st (diffEffects os (length (toRemove st)) filename data ndata).1.2
                (diffEffects os (length (toRemove st)) filename data ndata).2).
Proof.
  unfold diffMode, diffEffects.
  destruct (Go.Equal data ndata); [simpl; by rewrite advance_nil|].
  unfold mbind, M_bind. rewrite writeTemp_effects.
  destruct (tempEffects os (length (toRemove st)) ndata) as [[out names1] tr1]. simpl.
  destruct out as [outfile|err]; [|done].
  destruct (bool_decide (filename = "")).
  - rewrite writeTemp_effects. simpl. rewrite length_app.
    destruct (tempEffects os _ data) as [[inp names2] tr2]. simpl.
    destruct inp as [infile|err]; unfold mret, M_ret, emit; simpl.
    + by rewrite logged_advance, !advance_advance, app_nil_r, app_assoc.
    + by rewrite advance_advance.
  - unfold mret, M_ret, emit. simpl.
    by rewrite logged_advance, advance_advance, app_nil_r.
Qed.

Lemma fixMode_effects os fl filename data ndata st :
  fixMode os fl filename data ndata st =
    ((fixEffects os fl filename data ndata).1.1,
     advance st (fixEffects os fl filename data ndata).1.2
                (fixEffects os fl filename data ndata).2).
Proof.
  unfold fixMode, fixEffects.
  destruct (Go.Equal data ndata); [simpl; by rewrite advance_nil|].
  unfold mbind, M_bind, mret, M_ret, emit.
  destruct (WriteFile os filename ndata); simpl; [by rewrite logged_advance|].
  destruct (vflag fl); simpl; by rewrite ?logged_logged, logged_advance.
Qed.

Lemma processFile_effects os filename st :
  processFile os filename st =
    ((fileEffects os st filename).1.1,
     advance st (fileEffects os st filename).1.2 (fileEffects os st filename).2).
Proof.
  unfold fileEffects.
  destruct (readInput os filename) as [data|err] eqn:Hread.
  2: { unfold processFile, readInput in *. rewrite Hread. simpl.
       by rewrite advance_nil. }
  destruct (Parse filename data) as [f [e|]] eqn:Hparse.
  { rewrite (processFile_parse_error _ _ _ data e) by (by try rewrite Hparse).
    by rewrite logged_advance. }
  rewrite (processFile_parsed _ _ _ _ _ Hread Hparse).
  fold (coreCalls st filename data f).
  unfold modeSwitch, modeEffects.
  set (st1 := logged st (coreCalls st filename data f)).
  assert (Hst1 : st1 = advance st [] (coreCalls st filename data f))
    by apply logged_advance.
  assert (Hlen : length (toRemove st1) = length (toRemove st)) by done.
  repeat case_bool_decide.
  - rewrite checkMode_run, logged_advance, Hst1, advance_advance. done.
  - rewrite diffMode_effects, Hlen.
    destruct (diffEffects _ _ _ _ _) as [[r names] tr]. simpl.
    by rewrite Hst1, advance_advance.
  - rewrite pipeMode_run, logged_advance, Hst1, advance_advance. done.
  - rewrite fixMode_effects.
    destruct (fixEffects _ _ _ _ _) as [[r names] tr]. simpl.
    by rewrite Hst1, advance_advance.
  - unfold mret, M_ret. simpl. by rewrite Hst1.
Qed.


Lemma added_processFile os filename st :
  added st (processFile os filename st).2 = (fileEffects os st filename).2.
Proof. rewrite processFile_effects. simpl. apply added_advance. Qed.

Ltac effects_cases :=
  unfold fileEffects, modeEffects, diffEffects, fixEffects, tempEffects, coreCalls;
  repeat (case_match || case_bool_decide); simplify_eq/=.

Lemma fileEffects_own os filename st :
  forallb (ownAction (mode (flags st))) (fileEffects os st filename).2 = true.
Proof.
  effects_cases;
    repeat match goal with
           | E : mode (flags st) = _ |- _ => rewrite E
           end; done.
Qed.

(** X5.  Whatever the file and the operating system do, a call of
    [processFile] adds only calls into package [build] and the actions of
    its mode: check mode only prints its report, diff mode only creates
    temporary files and shows a diff, pipe mode only writes to standard
    output, fix mode only writes the file and its message; no mode runs
    the differ or removes a file. *)
Theorem processFile_own_actions os filename st :
  forallb (ownAction (mode (flags st))) (added st (processFile os filename st).2) = true.
Proof. rewrite added_processFile. apply fileEffects_own. Qed.

(** X6.  [processFile] writes at most one file in place: the file it was
    given, with the final formatted bytes, in fix mode, when the file was
    read and parsed and these bytes differ from its content.  In every
    other case it writes no file. *)
Theorem processFile_writes os filename st :
  writtenFiles (added st (processFile os filename st).2) =
    match readInput os filename with
    | Err _ => []
    | Ok data =>
        match Parse filename data with
        | (_, Some _) => []
        | (f, None) =>
            if (bool_decide (mode (flags st) = "fix") &&
                negb (Go.Equal data (finalBytes st f)))%bool
            then [(filename, finalBytes st f)]
            else []
        end
    end.
Proof.
  rewrite added_processFile. effects_cases; try done; try congruence.
Qed.

(** X7.  [processFile] prints on standard error only the line [fixed]
    followed by the file name, and only in fix mode with [-v], for a file
    that was changed and whose write succeeded. *)
Theorem processFile_stderr os filename st :
  stderrLines (added st (processFile os filename st).2) =
    match readInput os filename with
    | Err _ => []
    | Ok data =>
        match Parse filename data with
        | (_, Some _) => []
        | (f, None) =>
            if (bool_decide (mode (flags st) = "fix") && vflag (flags st) &&
                negb (Go.Equal data (finalBytes st f)) &&
                bool_decide (WriteFile os filename (finalBytes st f) = None))%bool
            then ["fixed " +:+ filename +:+ nl]
            else []
        end
    end.
Proof.
  rewrite added_processFile. effects_cases; try done; try congruence;
    destruct (vflag (flags st)); simplify_eq/=; done.
Qed.

(** X8.  An error returned by [processFile] is the error of reading the
    file, or in diff mode an error of creating or writing a temporary
    file, or in fix mode the error of writing the file: never a syntax
    error. *)
Theorem processFile_error_sources os filename st err :
  (processFile os filename st).1 = Done (Some err) ->
  readInput os filename = Err err \/
  (mode (flags st) = "diff" /\
   exists e, err = "creating temporary file: " +:+ e \/
             err = "writing temporary file: " +:+ e) \/
  (mode (flags st) = "fix" /\
   exists data f,
     readInput os filename = Ok data /\ Parse filename data = (f, None) /\
     WriteFile os filename (finalBytes st f) = Some err).
Proof.
  rewrite processFile_effects. simpl. effects_cases; intros; simplify_eq; eauto 10.
Qed.

(** X9.  [processFile] panics exactly when the file is read and parsed
    without error and the mode is none of check, diff, pipe and fix; the
    message names the mode.  An unreadable or malformed file returns
    before the mode is looked at. *)
Theorem processFile_panics os filename st msg :
  (processFile os filename st).1 = Panicked msg <->
  ((exists data f, readInput os filename = Ok data /\ Parse filename data = (f, None)) /\
   (mode (flags st) ∉ ["check"; "diff"; "pipe"; "fix"]) /\
   msg = "mode not supported: " +:+ mode (flags st)).
Proof.
  rewrite processFile_effects. simpl.
  rewrite !not_elem_of_cons.
  effects_cases;
    (split; [intros Heq; try discriminate Heq
            | intros ((d & f' & Hd & Hf) & (Hc & Hdf & Hp & Hx & _) & ->)]);
    try congruence.
  injection Heq as <-. repeat split; eauto using not_elem_of_nil.
Qed.

Lemma fileEffects_temps os filename st :
  createdTemps (fileEffects os st filename).2 = (fileEffects os st filename).1.2.
Proof. effects_cases; done. Qed.

(** X10.  When [processFile] shows a diff, its right-hand file is a
    temporary file that holds the final formatted bytes and is recorded in
    [toRemove], these bytes differ from the input, and its left-hand file
    is the file itself, or, for the empty file name, a recorded temporary
    file holding the input. *)
Theorem processFile_diff_shown os filename st infile outfile :
  EDiffShow infile outfile ∈ added st (processFile os filename st).2 ->
  exists data f,
    readInput os filename = Ok data /\ Parse filename data = (f, None) /\
    finalBytes st f <> data /\
    EWriteTemp outfile (finalBytes st f) ∈ added st (processFile os filename st).2 /\
    outfile ∈ toRemove (processFile os filename st).2 /\
    (infile = filename \/
     filename = "" /\
     EWriteTemp infile data ∈ added st (processFile os filename st).2 /\
     infile ∈ toRemove (processFile os filename st).2).
Proof.
  rewrite added_processFile, processFile_effects. simpl. unfold fileEffects.
  destruct (readInput os filename) as [data|e] eqn:Hread;
    [|simpl; intros Hin; inversion Hin].
  destruct (Parse filename data) as [f [e|]] eqn:Hparse.
  { simpl. rewrite elem_of_cons, elem_of_nil. naive_solver. }
  intros Hin. exists data, f. split; [done|]. split; [done|].
  unfold modeEffects, diffEffects, fixEffects, tempEffects, coreCalls in *.
  repeat (case_match || case_bool_decide); simplify_eq/=;
    rewrite ?elem_of_app, ?elem_of_cons, ?elem_of_nil in Hin;
    try (exfalso; naive_solver).
  all: split; [intros Heq;
    match goal with E : Go.Equal _ _ = false |- _ =>
      unfold Go.Equal in E; apply bool_decide_eq_false in E; by apply E end |].
  all: rewrite ?elem_of_app, ?elem_of_cons; naive_solver.
Qed.

(** *** Runs of [processFiles] and [main] *)







Lemma main_rejected os fl args :
  accepted fl args = false ->
  exists msg,
    main os args (initial fl) =
      (Done 2%Z,
       mkState fl (stringList (buildifier_disable fl)) (stringList (allowsort fl))
               [] [EStderr msg]).
Proof.
  unfold accepted, main. intros Hacc.
  unfold mbind, M_bind, getFlags, putRewriteConfig, initial. cbn [flags].
  destruct (dflag fl && bool_decide (mode fl ≠ ""))%bool; [by eexists|].
  cbv zeta. simpl in Hacc.
  destruct (decide ((if dflag fl then "diff" else mode fl) ∈ [""; "check"; "diff"; "fix"]))
    as [Hin|Hnin].
  - rewrite (bool_decide_eq_false_2 (_ ∉ _)) by (intros Hn; exact (Hn Hin)).
    rewrite (bool_decide_eq_true_2 _ Hin) in Hacc. simpl in Hacc.
    apply negb_false_iff in Hacc. rewrite Hacc. by eexists.
  - rewrite (bool_decide_eq_true_2 (_ ∉ _) Hnin). by eexists.
Qed.

(** X2.  When [main] rejects its flags ([-d] together with [-mode], an
    unknown mode, or [-path] with more than one file) it exits with
    status 2 having printed one line on standard error and processed no
    file. *)
Theorem main_rejects os fl args :
  accepted fl args = false ->
  exists msg,
    main os args (initial fl) =
      (Done 2%Z,
       mkState fl (stringList (buildifier_disable fl)) (stringList (allowsort fl))
               [] [EStderr msg]).
Proof. apply main_rejected. Qed.

(** X15.  In every run, rejected or not, [main] leaves
    [build.DisableRewrites] and [build.AllowSort] set to the values of
    their flags split at commas. *)
Theorem main_rewrite_config os fl args :
  DisableRewrites (main os args (initial fl)).2 = stringList (buildifier_disable fl) /\
  AllowSort (main os args (initial fl)).2 = stringList (allowsort fl).
Proof.
  destruct (accepted fl args) eqn:Hacc.
  - rewrite (main_accepted _ _ _ Hacc). cbv zeta.
    edestruct processFiles_run as (n & t & ->);
      [exact (effectiveMode_supported _ _ Hacc)|]. done.
  - destruct (main_rejected os fl args Hacc) as (msg & ->). done.
Qed.

(** X11.  Every temporary file [processFile] creates is appended to
    [toRemove], in the order of creation and also when the write to it
    fails; nothing else is appended. *)
Theorem processFile_records_temps os filename st :
  toRemove (processFile os filename st).2 =
    toRemove st ++ createdTemps (added st (processFile os filename st).2).
Proof.
  rewrite added_processFile, fileEffects_temps, processFile_effects. done.
Qed.

(** *** Flags that select the same run *)





End effects_facts.

(** *** The comma-separated flags *)

Lemma append_cons (c : ascii) (s t : string) : String c s +:+ t = String c (s +:+ t).
Proof. reflexivity. Qed.

Lemma append_nil_r (s : string) : s +:+ "" = s.
Proof. induction s as [|c s IH]; [done|]. by rewrite append_cons, IH. Qed.

Lemma append_assoc (s1 s2 s3 : string) : (s1 +:+ s2) +:+ s3 = s1 +:+ (s2 +:+ s3).
Proof. induction s1 as [|c s1 IH]; [done|]. by rewrite !append_cons, IH. Qed.

Lemma rev_app_append (s1 s2 s3 : string) :
  String.rev_app s1 s2 +:+ s3 = String.rev_app s1 (s2 +:+ s3).
Proof.
  revert s2. induction s1 as [|c s1 IH]; intros s2; [done|].
  simpl. by rewrite IH, append_cons.
Qed.

Lemma rev_cons_append (c : ascii) (cur s : string) :
  String.rev (String c cur) +:+ s = String.rev cur +:+ String c s.
Proof. unfold String.rev. simpl. by rewrite !rev_app_append. Qed.

Lemma splitFrom_cons sep cur s :
  exists piece rest, Go.splitFrom sep cur s = piece :: rest.
Proof.
  destruct s as [|c s]; simpl; [by eauto|]. case_bool_decide; [by eauto|].
  revert c cur H. induction s as [|d s IH]; intros c cur Hc; simpl; [by eauto|].
  case_bool_decide; eauto.
Qed.

Lemma Join_cons (x y : string) (rest : list string) (sep : string) :
  Go.Join (x :: y :: rest) sep = x +:+ sep +:+ Go.Join (y :: rest) sep.
Proof. reflexivity. Qed.

Lemma Join_splitFrom sep cur s :
  Go.Join (Go.splitFrom sep cur s) (String sep "") = String.rev cur +:+ s.
Proof.
  revert cur. induction s as [|c s IH]; intros cur; simpl.
  { by rewrite append_nil_r. }
  case_bool_decide as Hc.
  - subst c. destruct (splitFrom_cons sep "" s) as (piece & rest & E).
    specialize (IH ""). rewrite E in *. rewrite Join_cons, IH.
    done.
  - by rewrite IH, rev_cons_append.
Qed.

Lemma commas_rev_app (s1 s2 : string) :
  commas (String.rev_app s1 s2) = commas s1 + commas s2.
Proof.
  revert s2. induction s1 as [|c s1 IH]; intros s2; [done|].
  cbn. rewrite IH. cbn. lia.
Qed.

Lemma splitFrom_pieces cur s :
  commas cur = 0 ->
  length (Go.splitFrom "," cur s) = S (commas s) /\
  Forall (fun piece => commas piece = 0) (Go.splitFrom "," cur s).
Proof.
  revert cur. induction s as [|c s IH]; intros cur Hcur; simpl.
  { split; [done|]. constructor; [|done].
    unfold String.rev. rewrite commas_rev_app. simpl. lia. }
  case_bool_decide as Hc; simpl.
  - destruct (IH "" eq_refl) as [Hlen Hall]. split; [by rewrite Hlen|].
    constructor; [|done]. unfold String.rev. rewrite commas_rev_app. simpl. lia.
  - apply IH. simpl. by rewrite bool_decide_eq_false_2.
Qed.

(** X14.  [stringList] splits a flag value into one more piece than it
    has commas, no piece holding a comma, and joining the pieces with
    commas gives the value back; an unset flag gives the one-element list
    of the empty string. *)
Theorem stringList_pieces (value : string) :
  Go.Join (stringList value) "," = value /\
  length (stringList value) = S (commas value) /\
  Forall (fun piece => commas piece = 0) (stringList value) /\
  stringList "" = [""].
Proof.
  unfold stringList, Go.Split. split; [apply (Join_splitFrom "," "")|].
  destruct (splitFrom_pieces "" value eq_refl) as [Hlen Hall]. done.
Qed.

(** *** The theorems at concrete runs *)

Import Demo.

(** [processFile_error_sources] at a file that cannot be written. *)
Lemma processFile_error_sources_read_only :
  let st := initial (Demo.flagsFor "fix") in
  (processFile Scenarios.osReadOnly "x y" st).1 =
    Done (Some "open x y: permission denied") /\
  Buildifier.WriteFile Scenarios.osReadOnly "x y" (bytes_of "xy") =
    Some "open x y: permission denied".
Proof.
  intros st. split; [reflexivity|].
  destruct (processFile_error_sources Scenarios.osReadOnly "x y" st
              "open x y: permission denied" eq_refl)
    as [Hread|[[Hmode _]|(_ & data & f & Hread & Hparse & Hwrite)]].
  - discriminate Hread.
  - discriminate Hmode.
  - injection Hread as <-. injection Hparse as <-. exact Hwrite.
Defined.

(** [processFile_diff_shown] at the file [x y] in diff mode. *)
Lemma processFile_diff_shown_run :
  let st := initial (Demo.flagsFor "diff") in
  let st' := (processFile (Demo.os "") "x y" st).2 in
  EWriteTemp "/tmp/buildifier-tmp-0" (bytes_of "xy") ∈ added st st' /\
  toRemove st' = ["/tmp/buildifier-tmp-0"].
Proof.
  intros st st'. split; [|reflexivity].
  destruct (processFile_diff_shown (Demo.os "") "x y" st "x y" "/tmp/buildifier-tmp-0")
    as (data & f & Hread & Hparse & _ & Hin & _).
  - vm_compute. repeat constructor.
  - injection Hread as <-. injection Hparse as <-. exact Hin.
Defined.



(** [main_rejects] at the mode [format]. *)
Lemma main_rejects_unknown_mode :
  exists msg,
    (main (Demo.os "") ["BUILD"] (initial (Demo.flagsFor "format"))).1 = Done 2%Z /\
    trace (main (Demo.os "") ["BUILD"] (initial (Demo.flagsFor "format"))).2 =
      [EStderr msg].
Proof.
  destruct (main_rejects (Demo.os "") (Demo.flagsFor "format") ["BUILD"] eq_refl)
    as (msg & E).
  exists msg. rewrite E. split; reflexivity.
Defined.



(** *** The log of check mode, continued *)

Lemma uniqLog_sorted_members (log : list string) :
  StronglySorted String.le (uniqLog log) /\
  NoDup (uniqLog log) /\
  forall s, s ∈ uniqLog log <-> (s ∈ log /\ s <> "").
Proof.
  unfold uniqLog, Go.SortStrings.
  destruct (uniqFrom_sorted "" (merge_sort String.le log)) as (Hin & Hnd & Hsd).
  { constructor; [apply StronglySorted_merge_sort; apply _|].
    apply Forall_forall. intros s _. apply empty_le. }
  split; [done|]. split; [done|]. intros s.
  by rewrite Hin, merge_sort_Permutation.
Qed.

(** X13.  The entries check mode prints depend only on which entries the
    log holds, not on their order or on how often each occurs. *)
Theorem uniqLog_same_entries (log1 log2 : list string) :
  (forall s, s ∈ log1 <-> s ∈ log2) -> uniqLog log1 = uniqLog log2.
Proof.
  intros Hsame.
  destruct (uniqLog_sorted_members log1) as (Hs1 & Hn1 & Hin1).
  destruct (uniqLog_sorted_members log2) as (Hs2 & Hn2 & Hin2).
  apply (StronglySorted_unique String.le); [done..|].
  apply NoDup_Permutation; [done..|].
  intros s. rewrite Hin1, Hin2, Hsame. done.
Qed.

(** [uniqLog_same_entries] at a log with a repeated entry. *)
Lemma uniqLog_same_entries_run :
  uniqLog ["listsort"; "label"; "listsort"] = uniqLog ["label"; "listsort"].
Proof.
  apply uniqLog_same_entries. intros s. rewrite !elem_of_cons, elem_of_nil. tauto.
Defined.

End DriverFacts.
